(** * go-selfupdate: the update protocol and the replacement transaction

    A shallow embedding of [selfupdate/selfupdate.go], of the Windows
    [hideFile] helper and of the default [HTTPRequester], followed by the
    properties of the update cycle that the specification states.

    The Go code is effectful throughout: it talks to the file system, to the
    network and to the operating system.  Every function is therefore
    embedded in a small monad [M] that threads a [World] (file system,
    executable path, network, pending faults) and accumulates the list of
    [Event]s the call performed. *)

From stdpp Require Import gmap strings list.
From Stdlib Require Import ZArith.
From Stdlib.Strings Require Import Byte.

Local Open Scope Z_scope.
Local Open Scope string_scope.
Local Open Scope list_scope.

(** ** Paths

    A path is an absolute, clean path given by its components: ["/opt/app/x"]
    is [["opt"; "app"; "x"]] and the root is [[]].  On such paths
    [filepath.Dir], [filepath.Base] and [filepath.Join] with one more
    component are list operations. *)

Abbreviation path := (list string).

Definition filepath_Dir (p : path) : path := removelast p.

Definition filepath_Base (p : path) : string := List.last p "/".

Definition filepath_Join (dir : path) (elem : string) : path := dir ++ [elem].

Definition show_path (p : path) : string :=
  match p with
  | [] => "/"
  | _ => String.concat "" (List.map (fun c => "/" +:+ c) p)
  end.

(** ** Errors

    Go's [error] values: the [*PathError] and [*LinkError] of package [os],
    and the plain message errors made by [errors.New] and by [fmt.Errorf]
    without [%w].  A nilable [error] is an [option error]. *)

Inductive error : Type :=
| PathError (op : string) (p : path) (msg : string)
| LinkError (op : string) (old new : path) (msg : string)
| errorString (s : string).

Definition Error (e : error) : string :=
  match e with
  | PathError op p msg => op +:+ " " +:+ show_path p +:+ ": " +:+ msg
  | LinkError op old new msg =>
      op +:+ " " +:+ show_path old +:+ " " +:+ show_path new +:+ ": " +:+ msg
  | errorString s => s
  end.

Inductive result (A : Type) : Type :=
| Ok (a : A)
| Err (e : error).
Arguments Ok {A} a.
Arguments Err {A} e.

(** ** The file system

    A directory entry is a regular file or a symbolic link; it carries its
    permission bits and its Windows attribute word. *)

Inductive Content : Type :=
| Data (bytes : list byte)
| LinkTo (target : path).

Record Node : Type := mkNode {
  n_content : Content;
  n_mode : Z;
  n_attrs : Z
}.

Definition FILE_ATTRIBUTE_HIDDEN : Z := 2.

Definition hidden (n : Node) : bool :=
  negb (Z.land (n_attrs n) FILE_ATTRIBUTE_HIDDEN =? 0)%Z.

(** A fault the environment injects into the next system call (permission
    denied, disk full, file in use, ...).  [f_progress] is the number of
    bytes a failing write got out before it failed. *)
Record Fault : Type := mkFault {
  f_err : error;
  f_progress : nat
}.

Inductive HttpResult : Type :=
| HttpFail (e : error)
| HttpResp (StatusCode : Z) (Status : string) (Body : list byte).

Record World : Type := mkWorld {
  w_exe : result path;              (* what os.Executable reports *)
  w_fs : gmap path Node;
  w_umask : Z;
  w_http : string -> HttpResult;    (* the network, by URL *)
  w_faults : list (option Fault)    (* one entry per fallible system call *)
}.

(** ** Events: what a call did to the outside world *)

Inductive Event : Type :=
| EvFetch (url : string)
| EvEvalSymlinks (p : path)
| EvOpen (p : path) (err : option error)
| EvOpenFile (p : path) (perm : Z) (err : option error)
| EvWrite (p : path) (n : nat) (err : option error)
| EvRemove (p : path) (err : option error)
| EvRename (src dst : path) (err : option error)
| EvHide (p : path) (err : option error)
| EvLog (msg : string)
| EvOnSuccessfulUpdate.

Definition is_network (ev : Event) : bool :=
  match ev with
  | EvFetch _ => true
  | _ => false
  end.

(** The events that change (or try to change) the file system. *)
Definition is_mutation (ev : Event) : bool :=
  match ev with
  | EvOpenFile _ _ _ | EvWrite _ _ _ | EvRemove _ _
  | EvRename _ _ _ | EvHide _ _ => true
  | _ => false
  end.

Definition is_rename (ev : Event) : bool :=
  match ev with
  | EvRename _ _ _ => true
  | _ => false
  end.

(** ** The monad *)

Definition M (A : Type) : Type := World -> A * World * list Event.

Definition ret {A} (a : A) : M A := fun w => (a, w, []).

Definition bind {A B} (m : M A) (k : A -> M B) : M B :=
  fun w =>
    let '(a, w1, t1) := m w in
    let '(b, w2, t2) := k a w1 in
    (b, w2, t1 ++ t2).

Notation "'do' x <- m ; k" := (bind m (fun x => k))
  (at level 10, x pattern, m at level 100, k at level 200,
   format "'[v' 'do'  x  <-  m ; '/' k ']'").
Notation "m ;; k" := (bind m (fun _ => k))
  (at level 100, k at level 200, right associativity).

Definition emit (ev : Event) : M unit := fun w => (tt, w, [ev]).

Definition get_fs : M (gmap path Node) := fun w => (w_fs w, w, []).

Definition put_fs (fs : gmap path Node) : M unit :=
  fun w => (tt, mkWorld (w_exe w) fs (w_umask w) (w_http w) (w_faults w), []).

Definition get_umask : M Z := fun w => (w_umask w, w, []).

(** Every fallible system call takes the next entry of the fault list; an
    exhausted list injects nothing. *)
Definition next_fault : M (option Fault) :=
  fun w =>
    match w_faults w with
    | [] => (None, w, [])
    | f :: rest =>
        (f, mkWorld (w_exe w) (w_fs w) (w_umask w) (w_http w) rest, [])
    end.

(** ** Operating-system primitives *)

(** Follow the symbolic links at [p] itself, at most [fuel] of them; the
    result is a regular file or a free name. *)
Fixpoint follow (fs : gmap path Node) (fuel : nat) (p : path) : option path :=
  match fs !! p with
  | Some n =>
      match n_content n with
      | LinkTo t =>
          match fuel with
          | O => None
          | S k => follow fs k t
          end
      | Data _ => Some p
      end
  | None => Some p
  end.

Arguments follow : simpl never.

Definition ENOENT : string := "no such file or directory".
Definition ELOOP : string := "too many levels of symbolic links".

Definition os_Executable : M (result path) := fun w => (w_exe w, w, []).

Definition filepath_EvalSymlinks (p : path) : M (result path) :=
  emit (EvEvalSymlinks p);;
  do fs <- get_fs;
  match follow fs 255 p with
  | None => ret (Err (errorString "EvalSymlinks: too many links"))
  | Some q =>
      match fs !! q with
      | Some _ => ret (Ok q)
      | None => ret (Err (PathError "lstat" q ENOENT))
      end
  end.

(** [os.Open]: read-only; the handle is the path of the file reached. *)
Definition os_Open (p : path) : M (result path) :=
  do f <- next_fault;
  match f with
  | Some flt => emit (EvOpen p (Some (f_err flt)));; ret (Err (f_err flt))
  | None =>
      do fs <- get_fs;
      match follow fs 40 p with
      | None =>
          let e := PathError "open" p ELOOP in
          emit (EvOpen p (Some e));; ret (Err e)
      | Some q =>
          match fs !! q with
          | Some _ => emit (EvOpen p None);; ret (Ok q)
          | None =>
              let e := PathError "open" p ENOENT in
              emit (EvOpen p (Some e));; ret (Err e)
          end
      end
  end.

(** [os.OpenFile(p, O_CREATE|O_WRONLY|O_TRUNC, perm)], the only flags the
    program uses: an existing file is emptied and keeps its mode, a new one
    gets [perm] less the umask. *)
Definition os_OpenFile (p : path) (perm : Z) : M (result path) :=
  do f <- next_fault;
  match f with
  | Some flt =>
      emit (EvOpenFile p perm (Some (f_err flt)));; ret (Err (f_err flt))
  | None =>
      do fs <- get_fs;
      do umask <- get_umask;
      match follow fs 40 p with
      | None =>
          let e := PathError "open" p ELOOP in
          emit (EvOpenFile p perm (Some e));; ret (Err e)
      | Some q =>
          let node :=
            match fs !! q with
            | Some n => mkNode (Data []) (n_mode n) (n_attrs n)
            | None => mkNode (Data []) (Z.ldiff perm umask) 0
            end in
          put_fs (<[q := node]> fs);;
          emit (EvOpenFile p perm None);;
          ret (Ok q)
      end
  end.

Definition append_data (bs : list byte) (n : Node) : Node :=
  match n_content n with
  | Data old => mkNode (Data (old ++ bs)) (n_mode n) (n_attrs n)
  | LinkTo _ => n
  end.

(** [io.Copy(fp, bytes.NewReader(data))]: on a fault only a prefix of the
    data reaches the file. *)
Definition io_Copy (fp : path) (data : list byte) : M (nat * option error) :=
  do f <- next_fault;
  do fs <- get_fs;
  match f with
  | Some flt =>
      let written := firstn (f_progress flt) data in
      put_fs (alter (append_data written) fp fs);;
      emit (EvWrite fp (length written) (Some (f_err flt)));;
      ret (length written, Some (f_err flt))
  | None =>
      put_fs (alter (append_data data) fp fs);;
      emit (EvWrite fp (length data) None);;
      ret (length data, None)
  end.

(** [fp.Close()]: the data is already in the file. *)
Definition file_Close (fp : path) : M unit := ret tt.

Definition os_Remove (p : path) : M (option error) :=
  do f <- next_fault;
  match f with
  | Some flt => emit (EvRemove p (Some (f_err flt)));; ret (Some (f_err flt))
  | None =>
      do fs <- get_fs;
      match fs !! p with
      | Some _ => put_fs (delete p fs);; emit (EvRemove p None);; ret None
      | None =>
          let e := PathError "remove" p ENOENT in
          emit (EvRemove p (Some e));; ret (Some e)
      end
  end.

(** [os.Rename]: moves the entry itself (a link is not followed) and
    replaces whatever is at the destination. *)
Definition os_Rename (src dst : path) : M (option error) :=
  do f <- next_fault;
  match f with
  | Some flt =>
      emit (EvRename src dst (Some (f_err flt)));; ret (Some (f_err flt))
  | None =>
      do fs <- get_fs;
      match fs !! src with
      | Some n =>
          put_fs (<[dst := n]> (delete src fs));;
          emit (EvRename src dst None);;
          ret None
      | None =>
          let e := LinkError "rename" src dst ENOENT in
          emit (EvRename src dst (Some e));; ret (Some e)
      end
  end.

(** ** selfupdate/hide_windows.go *)

Definition has_nul (s : string) : bool :=
  existsb (Ascii.eqb Ascii.zero) (String.list_ascii_of_string s).

Definition EINVAL : error := errorString "invalid argument".

(** [syscall.UTF16PtrFromString]: refuses a string with a NUL in it. *)
Definition syscall_UTF16PtrFromString (p : path) : result path :=
  if existsb has_nul p then Err EINVAL else Ok p.

(** A procedure call replies with [r1] and with the last error, which is
    never nil. *)
Definition ERROR_SUCCESS : error :=
  errorString "The operation completed successfully.".
Definition ERROR_FILE_NOT_FOUND : error :=
  errorString "The system cannot find the file specified.".

(** [SetFileAttributesW(ptr, attrs)] replaces the attribute word of the
    entry; [r1] is 0 when it fails. *)
Definition SetFileAttributesW (p : path) (attrs : Z) : M (Z * error) :=
  do f <- next_fault;
  match f with
  | Some flt => emit (EvHide p (Some (f_err flt)));; ret (0, f_err flt)
  | None =>
      do fs <- get_fs;
      match fs !! p with
      | Some n =>
          put_fs (<[p := mkNode (n_content n) (n_mode n) attrs]> fs);;
          emit (EvHide p None);;
          ret (1, ERROR_SUCCESS)
      | None =>
          emit (EvHide p (Some ERROR_FILE_NOT_FOUND));;
          ret (0, ERROR_FILE_NOT_FOUND)
      end
  end.

Definition hideFile (p : path) : M (option error) :=
  match syscall_UTF16PtrFromString p with
  | Err err => ret (Some err)
  | Ok ptr =>
      do (r1, err) <- SetFileAttributesW ptr 2;
      if (r1 =? 0)%Z then ret (Some err) else ret None
  end.

(** ** The default requester (HTTPRequester.Fetch)

    An [io.ReadCloser] is given by the bytes of the body.  The default
    requester returns either a body or an error. *)

Definition HTTPRequester_Fetch (url : string) : M (result (list byte)) :=
  emit (EvFetch url);;
  fun w =>
    match w_http w url with
    | HttpFail err => (Err err, w, [])
    | HttpResp StatusCode Status Body =>
        if negb (StatusCode =? 200)%Z
        then (Err (errorString
                     ("bad http status from " +:+ url +:+ ": " +:+ Status)),
              w, [])
        else (Ok Body, w, [])
    end.

(** A caller-supplied [Requester]: its [Fetch] is a function of the URL and
    may return any combination of a nilable body and a nilable error. *)
Definition FetchReply : Type := option (list byte) * option error.

Definition Requester_Fetch (r : string -> FetchReply) (url : string)
  : M FetchReply :=
  emit (EvFetch url);; ret (r url).

(** ** What the program takes from its platform and its libraries

    [plat] is [runtime.GOOS + "-" + runtime.GOARCH]; the codecs and the
    escaping functions belong to the Go libraries and are opaque here.
    [json_Decode] decodes a manifest body into the [Info] struct it is given
    (a field absent from the body keeps its value); [zstd_NewReader] makes
    the decompressing reader, given by the bytes it yields and the error it
    ends with; [strconv_Quote] is what the verb [%q] prints. *)

Record InfoT : Type := mkInfo { Version : string }.

Class Runtime : Type := {
  plat : string;
  url_QueryEscape : string -> string;
  json_Decode : list byte -> InfoT -> InfoT * option error;
  zstd_NewReader : list byte -> result (list byte * option error);
  strconv_Quote : string -> string
}.

(** ** selfupdate/selfupdate.go *)

Record Updater : Type := mkUpdater {
  CurrentVersion : string;
  ApiURL : string;
  CmdName : string;
  CheckTime : Z;
  RandomizeTime : Z;
  Requester : option (string -> FetchReply);
  Info : InfoT;
  OnSuccessfulUpdate : bool      (* is the callback set? *)
}.

Definition set_Info (u : Updater) (i : InfoT) : Updater :=
  mkUpdater (CurrentVersion u) (ApiURL u) (CmdName u) (CheckTime u)
            (RandomizeTime u) (Requester u) i (OnSuccessfulUpdate u).

(** An [io.Reader]: the bytes it yields and the error it ends with. *)
Record Reader : Type := mkReader {
  r_data : list byte;
  r_err : option error
}.

Definition bytes_NewBuffer (b : list byte) : Reader := mkReader b None.

Definition io_ReadAll (r : Reader) : list byte * option error :=
  (r_data r, r_err r).

(** [fmt.Sprintf(".%s.new", filename)] and [fmt.Sprintf(".%s.old", filename)] *)
Definition dot_new (filename : string) : string := "." +:+ filename +:+ ".new".
Definition dot_old (filename : string) : string := "." +:+ filename +:+ ".old".

(** The staging path and the backup path, as [fromStream] and [canUpdate]
    compute them from the path of the executable. *)
Definition newPath_of (updatePath : path) : path :=
  filepath_Join (filepath_Dir updatePath) (dot_new (filepath_Base updatePath)).
Definition oldPath_of (updatePath : path) : path :=
  filepath_Join (filepath_Dir updatePath) (dot_old (filepath_Base updatePath)).

Definition perm_0755 : Z := 0x1ed.

Definition canUpdate : M (option error) :=
  do r <- os_Executable;
  match r with
  | Err err => ret (Some err)
  | Ok path =>
      let fileDir := filepath_Dir path in
      let fileName := filepath_Base path in
      let newPath := filepath_Join fileDir (dot_new fileName) in
      do r <- os_OpenFile newPath perm_0755;
      match r with
      | Err err => ret (Some err)
      | Ok fp =>
          file_Close fp;;
          os_Remove newPath;;
          ret None
      end
  end.

Definition WantUpdate (u : Updater) : bool :=
  if String.eqb (CurrentVersion u) "dev" then false else true.

Section Selfupdate.
Context `{RT : Runtime}.

Definition manifest_url (u : Updater) : string :=
  ApiURL u +:+ url_QueryEscape (CmdName u) +:+ "/"
    +:+ url_QueryEscape plat +:+ ".json".

Definition artifact_url (u : Updater) : string :=
  ApiURL u +:+ url_QueryEscape (CmdName u) +:+ "/"
    +:+ url_QueryEscape (Version (Info u)) +:+ "/"
    +:+ url_QueryEscape plat +:+ ".zst".

Definition fetch (u : Updater) (url : string) : M (result (list byte)) :=
  match Requester u with
  | None => HTTPRequester_Fetch url
  | Some requester =>
      do (readCloser, err) <- Requester_Fetch requester url;
      match err with
      | Some err => ret (Err err)
      | None =>
          match readCloser with
          | None =>
              ret (Err (errorString
                          "Fetch was expected to return non-nil ReadCloser"))
          | Some rc => ret (Ok rc)
          end
      end
  end.

(** [FetchInfo] decodes into [u.Info] in place, so the updater comes back
    with the result. *)
Definition FetchInfo (u : Updater) : M (option error * Updater) :=
  do r <- fetch u (manifest_url u);
  match r with
  | Err err => ret (Some err, u)
  | Ok body =>
      let (info, err) := json_Decode body (Info u) in
      ret (err, set_Info u info)
  end.

Definition fetchBin (u : Updater) : M (result (list byte)) :=
  do r <- fetch u (artifact_url u);
  match r with
  | Err err => ret (Err err)
  | Ok body =>
      match zstd_NewReader body with
      | Err err => ret (Err err)
      | Ok (decoded, copy_err) =>
          match copy_err with
          | Some err => ret (Err err)
          | None => ret (Ok decoded)
          end
      end
  end.

Definition fetchFullBin (u : Updater) : M (result (list byte)) :=
  do r <- fetchBin u;
  match r with
  | Err err => ret (Err err)
  | Ok bin => ret (Ok bin)
  end.

(** [fromStream] returns the pair [(err, errRecover)]. *)
Definition fromStream (updateWith : Reader) : M (option error * option error) :=
  do r <- os_Executable;
  match r with
  | Err err => ret (Some err, None)
  | Ok updatePath =>
      let (newBytes, err) := io_ReadAll updateWith in
      match err with
      | Some err => ret (Some err, None)
      | None =>
          let updateDir := filepath_Dir updatePath in
          let filename := filepath_Base updatePath in
          let newPath := filepath_Join updateDir (dot_new filename) in
          do r <- os_OpenFile newPath perm_0755;
          match r with
          | Err err => ret (Some err, None)
          | Ok fp =>
              (* the error of the copy is assigned and then overwritten *)
              do (_, err) <- io_Copy fp newBytes;
              file_Close fp;;
              let oldPath := filepath_Join updateDir (dot_old filename) in
              os_Remove oldPath;;
              do err <- os_Rename updatePath oldPath;
              match err with
              | Some err => ret (Some err, None)
              | None =>
                  do err <- os_Rename newPath updatePath;
                  match err with
                  | Some err =>
                      do errRecover <- os_Rename oldPath updatePath;
                      ret (Some err, errRecover)
                  | None =>
                      do errRemove <- os_Remove oldPath;
                      match errRemove with
                      | Some _ => hideFile oldPath;; ret (None, None)
                      | None => ret (None, None)
                      end
                  end
              end
          end
      end
  end.

(** How [%q] prints an error operand. *)
Definition fmt_q (e : option error) : string :=
  match e with
  | Some e => strconv_Quote (Error e)
  | None => "%!q(<nil>)"
  end.

(** [fmt.Errorf("update and recovery errors: %q %q", err, errRecover)] *)
Definition update_and_recovery_errors (err errRecover : option error) : error :=
  errorString
    ("update and recovery errors: " +:+ fmt_q err +:+ " " +:+ fmt_q errRecover).

Definition println_fetchFullBin (err : error) : Event :=
  EvLog ("update: fetching full binary(fetchFullBin), " +:+ Error err).

Definition UpdateAvailable (u : Updater) : M (string * option error * Updater) :=
  do r <- os_Executable;
  match r with
  | Err err => ret ("", Some err, u)
  | Ok path =>
      do r <- os_Open path;
      match r with
      | Err err => ret ("", Some err, u)
      | Ok old =>
          do (err, u) <- FetchInfo u;
          match err with
          | Some err => ret ("", Some err, u)
          | None =>
              if String.eqb (Version (Info u)) (CurrentVersion u)
              then ret ("", None, u)
              else ret (Version (Info u), None, u)
          end
      end
  end.

Definition Update (u : Updater) : M (option error * Updater) :=
  do r <- os_Executable;
  match r with
  | Err err => ret (Some err, u)
  | Ok path =>
      do r <- filepath_EvalSymlinks path;
      let path := match r with Ok resolvedPath => resolvedPath | Err _ => path end in
      do (err, u) <- FetchInfo u;
      match err with
      | Some err => ret (Some err, u)
      | None =>
          if String.eqb (Version (Info u)) (CurrentVersion u)
          then ret (None, u)
          else
            do r <- os_Open path;
            match r with
            | Err err => ret (Some err, u)
            | Ok old =>
                do r <- fetchFullBin u;
                match r with
                | Err err => emit (println_fetchFullBin err);; ret (Some err, u)
                | Ok bin =>
                  file_Close old;;
                  do (err, errRecover) <- fromStream (bytes_NewBuffer bin);
                  match errRecover with
                  | Some _ => ret (Some (update_and_recovery_errors err errRecover), u)
                  | None =>
                      match err with
                      | Some err => ret (Some err, u)
                      | None =>
                          (if OnSuccessfulUpdate u
                           then emit EvOnSuccessfulUpdate else ret tt);;
                          ret (None, u)
                      end
                  end
                end
            end
      end
  end.

Definition UpdateForce (u : Updater) : M (option error * Updater) :=
  do r <- os_Executable;
  match r with
  | Err err => ret (Some err, u)
  | Ok path =>
      do r <- filepath_EvalSymlinks path;
      let path := match r with Ok resolvedPath => resolvedPath | Err _ => path end in
      do r <- os_Open path;
      match r with
      | Err err => ret (Some err, u)
      | Ok old =>
          do r <- fetchFullBin u;
          match r with
          | Err err => emit (println_fetchFullBin err);; ret (Some err, u)
          | Ok bin =>
            file_Close old;;
            do (err, errRecover) <- fromStream (bytes_NewBuffer bin);
            match errRecover with
            | Some _ => ret (Some (update_and_recovery_errors err errRecover), u)
            | None =>
                match err with
                | Some err => ret (Some err, u)
                | None =>
                    (if OnSuccessfulUpdate u
                     then emit EvOnSuccessfulUpdate else ret tt);;
                    ret (None, u)
                end
            end
          end
      end
  end.

Definition BackgroundRun (u : Updater) : M (option error * Updater) :=
  if WantUpdate u then
    do err <- canUpdate;
    match err with
    | Some err => ret (Some err, u)
    | None =>
        do (err, u) <- Update u;
        match err with
        | Some err => ret (Some err, u)
        | None => ret (None, u)
        end
    end
  else ret (None, u).

End Selfupdate.

(** * The vocabulary of the statements *)

(** The parts of the world no call changes. *)
Definition same_env (w w' : World) : Prop :=
  w_exe w' = w_exe w /\ w_http w' = w_http w /\ w_umask w' = w_umask w.

Definition err_of {A} (r : result A) : option error :=
  match r with
  | Ok _ => None
  | Err e => Some e
  end.

(** The node [os.OpenFile] leaves at the file it opened. *)
Definition created (w : World) (q : path) (perm : Z) : Node :=
  match w_fs w !! q with
  | Some n => mkNode (Data []) (n_mode n) (n_attrs n)
  | None => mkNode (Data []) (Z.ldiff perm (w_umask w)) 0
  end.

(** ** The replacement transaction, case by case

    [staged] describes the file system [fs3] on which the evacuation starts:
    [.name.new] was opened (reaching the file [q]) and [written] was copied
    into it, the copy ending with [cerr]; the stale backup was then removed,
    or not ([rerr]). *)

Definition staged (p : path) (B : list byte) (w : World) (q : path)
    (written : list byte) (cerr rerr : option error)
    (fs3 : gmap path Node) : Prop :=
  follow (w_fs w) 40 (newPath_of p) = Some q /\
  (cerr = None -> written = B) /\
  let fs2 := alter (append_data written) q
               (<[q := created w q perm_0755]> (w_fs w)) in
  match rerr with
  | None => is_Some (fs2 !! oldPath_of p) /\ fs3 = delete (oldPath_of p) fs2
  | Some _ => fs3 = fs2
  end.

Definition stage_events (p q : path) (written : list byte)
    (cerr rerr : option error) : list Event :=
  [EvOpenFile (newPath_of p) perm_0755 None;
   EvWrite q (length written) cerr;
   EvRemove (oldPath_of p) rerr].

(** The file system once the original has been moved to the backup name,
    and once the staged file [m] has been moved into its place. *)
Definition evacuated (p : path) (n : Node) (fs3 : gmap path Node)
  : gmap path Node :=
  <[oldPath_of p := n]> (delete p fs3).

Definition promoted (p : path) (n m : Node) (fs3 : gmap path Node)
  : gmap path Node :=
  <[p := m]> (delete (newPath_of p) (evacuated p n fs3)).

(** Every run of [fromStream] on the executable [p] with the bytes [B] is one
    of these six. *)
Inductive txn (p : path) (B : list byte) (w : World) :
    option error * option error -> gmap path Node -> list Event -> Prop :=
| txn_stage_failed e :
    txn p B w (Some e, None) (w_fs w)
        [EvOpenFile (newPath_of p) perm_0755 (Some e)]
| txn_evacuate_failed q written cerr rerr fs3 e :
    staged p B w q written cerr rerr fs3 ->
    txn p B w (Some e, None) fs3
        (stage_events p q written cerr rerr
           ++ [EvRename p (oldPath_of p) (Some e)])
| txn_recovered q written cerr rerr fs3 n e :
    staged p B w q written cerr rerr fs3 ->
    fs3 !! p = Some n ->
    txn p B w (Some e, None)
        (<[p := n]> (delete (oldPath_of p) (evacuated p n fs3)))
        (stage_events p q written cerr rerr
           ++ [EvRename p (oldPath_of p) None;
               EvRename (newPath_of p) p (Some e);
               EvRename (oldPath_of p) p None])
| txn_unrecovered q written cerr rerr fs3 n e e' :
    staged p B w q written cerr rerr fs3 ->
    fs3 !! p = Some n ->
    txn p B w (Some e, Some e') (evacuated p n fs3)
        (stage_events p q written cerr rerr
           ++ [EvRename p (oldPath_of p) None;
               EvRename (newPath_of p) p (Some e);
               EvRename (oldPath_of p) p (Some e')])
| txn_swapped_clean q written cerr rerr fs3 n m :
    staged p B w q written cerr rerr fs3 ->
    fs3 !! p = Some n ->
    evacuated p n fs3 !! newPath_of p = Some m ->
    txn p B w (None, None) (delete (oldPath_of p) (promoted p n m fs3))
        (stage_events p q written cerr rerr
           ++ [EvRename p (oldPath_of p) None;
               EvRename (newPath_of p) p None;
               EvRemove (oldPath_of p) None])
| txn_swapped_backup_left q written cerr rerr fs3 n m e herr fs' hide_evs :
    staged p B w q written cerr rerr fs3 ->
    fs3 !! p = Some n ->
    evacuated p n fs3 !! newPath_of p = Some m ->
    match herr with
    | None =>
        hide_evs = [EvHide (oldPath_of p) None] /\
        exists k, promoted p n m fs3 !! oldPath_of p = Some k /\
          fs' = <[oldPath_of p := mkNode (n_content k) (n_mode k) 2]>
                  (promoted p n m fs3)
    | Some he =>
        fs' = promoted p n m fs3 /\
        ((hide_evs = [] /\
          syscall_UTF16PtrFromString (oldPath_of p) = Err he) \/
         hide_evs = [EvHide (oldPath_of p) (Some he)])
    end ->
    txn p B w (None, None) fs'
        (stage_events p q written cerr rerr
           ++ [EvRename p (oldPath_of p) None;
               EvRename (newPath_of p) p None;
               EvRemove (oldPath_of p) (Some e)]
           ++ hide_evs).

Section Vocabulary.
Context `{RT : Runtime}.

(** An event that leaves the file system alone. *)
Definition quiet (ev : Event) : bool := negb (is_mutation ev).

(** The name [q] is free, or holds a regular file. *)
Definition regular_or_free (fs : gmap path Node) (q : path) : Prop :=
  forall n, fs !! q = Some n -> exists d, n_content n = Data d.

(** [needle] occurs in [hay]. *)
Definition contains (needle hay : string) : Prop :=
  exists pre post, hay = pre +:+ needle +:+ post.

(** What the callers of [fromStream] make of its two errors, and the event
    that follows a clean swap. *)
Definition verdict (r : option error * option error) : option error :=
  match r with
  | (err, Some e2) => Some (update_and_recovery_errors err (Some e2))
  | (err, None) => err
  end.

Definition after_swap (u : Updater) (r : option error * option error)
  : list Event :=
  match r with
  | (None, None) => if OnSuccessfulUpdate u then [EvOnSuccessfulUpdate] else []
  | _ => []
  end.

(** A run of [Update] or [UpdateForce] either stops before the transaction,
    having changed nothing, or wraps one run of [fromStream]. *)
Definition installs (u : Updater) (w : World) (res : option error)
    (w' : World) (evs : list Event) : Prop :=
  (same_env w w' /\ w_fs w' = w_fs w /\ forallb quiet evs = true /\
   forall url, In (EvFetch url) evs -> url = artifact_url u) \/
  (exists pre w1 bin r t,
      same_env w w1 /\ w_fs w1 = w_fs w /\ forallb quiet pre = true /\
      (forall url, In (EvFetch url) pre -> url = artifact_url u) /\
      fromStream (bytes_NewBuffer bin) w1 = (r, w', t) /\
      evs = pre ++ t ++ after_swap u r /\ res = verdict r).

(** [UpdateForce] as the specification words it: identical to [Update]
    but for the version-equality short-circuit, which it skips.  It is what
    the code of [UpdateForce] is compared with. *)
Definition UpdateForce_as_specified (u : Updater) : M (option error * Updater) :=
  do r <- os_Executable;
  match r with
  | Err err => ret (Some err, u)
  | Ok path =>
      do r <- filepath_EvalSymlinks path;
      let path := match r with Ok resolvedPath => resolvedPath | Err _ => path end in
      do (err, u) <- FetchInfo u;
      match err with
      | Some err => ret (Some err, u)
      | None =>
          do r <- os_Open path;
          match r with
          | Err err => ret (Some err, u)
          | Ok old =>
              do r <- fetchFullBin u;
              match r with
              | Err err => emit (println_fetchFullBin err);; ret (Some err, u)
              | Ok bin =>
                  file_Close old;;
                  do (err, errRecover) <- fromStream (bytes_NewBuffer bin);
                  match errRecover with
                  | Some _ =>
                      ret (Some (update_and_recovery_errors err errRecover), u)
                  | None =>
                      match err with
                      | Some err => ret (Some err, u)
                      | None =>
                          (if OnSuccessfulUpdate u
                           then emit EvOnSuccessfulUpdate else ret tt);;
                          ret (None, u)
                      end
                  end
              end
          end
      end
  end.

End Vocabulary.

(** * Scenarios

    A small concrete platform: the manifest body is the bare version string,
    the compressed stream is its own content, and [%q] puts its operand
    between quotation marks. *)

Definition quotation_mark : string := String (Ascii.ascii_of_nat 34) "".

Definition demo_rt : Runtime := {|
  plat := "linux-amd64";
  url_QueryEscape := fun s => s;
  json_Decode := fun body _ => (mkInfo (String.string_of_list_byte body), None);
  zstd_NewReader := fun body => Ok (body, None);
  strconv_Quote := fun s => quotation_mark +:+ s +:+ quotation_mark
|}.

Definition demo_manifest : list byte := String.list_byte_of_string "1.2.0".
Definition old_image : list byte := [x01].
Definition new_image : list byte := [x02; x03].

Definition demo_http (url : string) : HttpResult :=
  if String.eqb url "http://updates.example/myapp/linux-amd64.json"
  then HttpResp 200 "200 OK" demo_manifest
  else if String.eqb url "http://updates.example/myapp/1.2.0/linux-amd64.zst"
  then HttpResp 200 "200 OK" new_image
  else HttpResp 404 "404 Not Found" [].

Definition demo_exe : path := ["opt"; "app"; "myapp"].
Definition demo_new : path := ["opt"; "app"; ".myapp.new"].
Definition demo_old : path := ["opt"; "app"; ".myapp.old"].

(** The executable alone in its directory, with the mode [mode]; [faults]
    is what the environment injects. *)
Definition demo_world (mode : Z) (faults : list (option Fault)) : World :=
  mkWorld (Ok demo_exe) {[ demo_exe := mkNode (Data old_image) mode 0 ]}
          0 demo_http faults.

Definition demo_updater (current : string) (known : string) : Updater :=
  mkUpdater current "http://updates.example/" "myapp" 24 0 None
            (mkInfo known) true.

Definition fault (msg : string) : option Fault :=
  Some (mkFault (errorString msg) 0).

(** The executable reached through a symbolic link. *)
Definition link_exe : path := ["usr"; "bin"; "myapp"].
Definition link_world : World :=
  mkWorld (Ok link_exe)
          (<[ link_exe := mkNode (LinkTo demo_exe) 0x1ff 0 ]>
             {[ demo_exe := mkNode (Data old_image) 0x1ed 0 ]})
          0 demo_http [].

(** The error [os.Remove] gives for the stale backup that is not there. *)
Definition no_backup (old : path) : option error :=
  Some (PathError "remove" old ENOENT).

(** Runs the statements below are read on. *)
Definition private_run :=
  fromStream (bytes_NewBuffer new_image) (demo_world 0x1c0 []).

Definition double_fault_world : World :=
  demo_world 0x1ed [None; None; None; None; None;
                    fault "promote"; fault "recover"].

Definition double_fault_run :=
  Update (RT := demo_rt) (demo_updater "1.1.0" "") double_fault_world.

Definition lost_world : World :=
  mkWorld (Err (errorString "readlink /proc/self/exe: permission denied"))
          ∅ 0 demo_http [].

(** The executable is there and cannot be opened. *)
Definition unreadable_world : World :=
  demo_world 0x1ed [fault "permission denied"].

(** The backup cannot be deleted (file in use); it can be hidden. *)
Definition busy_world : World :=
  demo_world 0x1ed [None; None; None; None; None; fault "in use"].

Definition busy_run := fromStream (bytes_NewBuffer new_image) busy_world.

(** * Properties *)

(** ** Paths of the transaction *)

Lemma string_length_app (s1 s2 : string) :
  String.length (s1 +:+ s2) = (String.length s1 + String.length s2)%nat.
Proof. induction s1 as [|c s1 IH]; simpl; [done | by rewrite IH]. Qed.

Lemma string_app_assoc (s1 s2 s3 : string) :
  (s1 +:+ s2) +:+ s3 = s1 +:+ (s2 +:+ s3).
Proof.
  induction s1 as [|c s1 IH]; [done|].
  change (String c ((s1 +:+ s2) +:+ s3) = String c (s1 +:+ s2 +:+ s3)).
  by rewrite IH.
Qed.

Lemma string_app_nil_r (s : string) : s +:+ "" = s.
Proof.
  induction s as [|c s IH]; [done|].
  change (String c (s +:+ "") = String c s). by rewrite IH.
Qed.

Lemma dot_new_neq (b : string) : dot_new b <> b.
Proof.
  intros H. apply (f_equal String.length) in H.
  unfold dot_new in H. rewrite !string_length_app in H. simpl in H. lia.
Qed.

Lemma dot_old_neq (b : string) : dot_old b <> b.
Proof.
  intros H. apply (f_equal String.length) in H.
  unfold dot_old in H. rewrite !string_length_app in H. simpl in H. lia.
Qed.

Lemma dot_new_old_neq (b : string) : dot_new b <> dot_old b.
Proof.
  unfold dot_new, dot_old. intros H.
  injection H as H. apply (inj (String.app b)) in H. discriminate.
Qed.

Lemma join_dir_neq (p : path) (x : string) :
  x <> filepath_Base p -> filepath_Join (filepath_Dir p) x <> p.
Proof.
  unfold filepath_Join, filepath_Dir, filepath_Base. intros Hx Heq.
  destruct (decide (p = [])) as [->|Hp].
  - discriminate.
  - rewrite (app_removelast_last "/" Hp) in Heq at 2.
    apply app_inj_tail in Heq as [_ Heq]. by apply Hx.
Qed.

Lemma newPath_neq (p : path) : newPath_of p <> p.
Proof. apply join_dir_neq, dot_new_neq. Qed.

Lemma oldPath_neq (p : path) : oldPath_of p <> p.
Proof. apply join_dir_neq, dot_old_neq. Qed.

Lemma newPath_oldPath_neq (p : path) : newPath_of p <> oldPath_of p.
Proof.
  unfold newPath_of, oldPath_of, filepath_Join. intros H.
  apply app_inj_tail in H as [_ H]. by apply dot_new_old_neq in H.
Qed.

Lemma dir_join (d : path) (x : string) : filepath_Dir (filepath_Join d x) = d.
Proof. unfold filepath_Dir, filepath_Join. apply removelast_last. Qed.

Lemma base_join (d : path) (x : string) : filepath_Base (filepath_Join d x) = x.
Proof. unfold filepath_Base, filepath_Join. apply last_last. Qed.

(** ** The monad and the primitives, by inversion *)

Lemma same_env_refl w : same_env w w.
Proof. by repeat split. Qed.

Lemma same_env_trans w1 w2 w3 :
  same_env w1 w2 -> same_env w2 w3 -> same_env w1 w3.
Proof. intros (?&?&?) (?&?&?). repeat split; congruence. Qed.

Lemma bind_inv {A B} (m : M A) (k : A -> M B) w b w2 t :
  bind m k w = (b, w2, t) ->
  exists a w1 t1 t2, m w = (a, w1, t1) /\ k a w1 = (b, w2, t2) /\ t = t1 ++ t2.
Proof.
  unfold bind. destruct (m w) as [[a w1] t1].
  destruct (k a w1) as [[b' w2'] t2] eqn:Hk.
  intros [= <- <- <-]. by exists a, w1, t1, t2.
Qed.

Lemma ret_inv {A} (a : A) w b w' t :
  ret a w = (b, w', t) -> b = a /\ w' = w /\ t = [].
Proof. by intros [= <- <- <-]. Qed.

Ltac prim_unfold :=
  unfold bind, next_fault, get_fs, get_umask, put_fs, emit, ret, same_env.

Lemma os_Open_inv p w r w1 t :
  os_Open p w = (r, w1, t) ->
  same_env w w1 /\ w_fs w1 = w_fs w /\ t = [EvOpen p (err_of r)].
Proof.
  unfold os_Open. prim_unfold.
  destruct w as [exe fs um http faults]; simpl.
  destruct faults as [|[flt|] rest]; simpl.
  all: try (intros [= <- <- <-]; simpl; by auto).
  all: destruct (follow fs 40 p) as [q|]; simpl;
    [destruct (fs !! q)|]; simpl; intros [= <- <- <-]; simpl; auto.
Qed.

Lemma os_OpenFile_inv p perm w r w1 t :
  os_OpenFile p perm w = (r, w1, t) ->
  same_env w w1 /\ t = [EvOpenFile p perm (err_of r)] /\
  match r with
  | Err e => w_fs w1 = w_fs w
  | Ok q => follow (w_fs w) 40 p = Some q /\
            w_fs w1 = <[q := created w q perm]> (w_fs w)
  end.
Proof.
  unfold os_OpenFile, created. prim_unfold.
  destruct w as [exe fs um http faults]; simpl.
  destruct faults as [|[flt|] rest]; simpl.
  all: try (intros [= <- <- <-]; simpl; by auto).
  all: destruct (follow fs 40 p) as [q|]; simpl;
    intros [= <- <- <-]; simpl; auto.
Qed.

Lemma io_Copy_inv fp data w n err w1 t :
  io_Copy fp data w = ((n, err), w1, t) ->
  same_env w w1 /\
  exists written,
    t = [EvWrite fp (length written) err] /\
    w_fs w1 = alter (append_data written) fp (w_fs w) /\
    (err = None -> written = data).
Proof.
  unfold io_Copy. prim_unfold.
  destruct w as [exe fs um http faults]; simpl.
  destruct faults as [|[flt|] rest]; simpl; intros [= <- <- <- <-]; simpl.
  all: split; [done|]; eexists; split; [reflexivity|]; split; [reflexivity|];
    done.
Qed.

Lemma os_Remove_inv p w err w1 t :
  os_Remove p w = (err, w1, t) ->
  same_env w w1 /\ t = [EvRemove p err] /\
  match err with
  | None => is_Some (w_fs w !! p) /\ w_fs w1 = delete p (w_fs w)
  | Some _ => w_fs w1 = w_fs w
  end.
Proof.
  unfold os_Remove. prim_unfold.
  destruct w as [exe fs um http faults]; simpl.
  destruct faults as [|[flt|] rest]; simpl.
  all: try (intros [= <- <- <-]; simpl; by auto).
  all: destruct (fs !! p) eqn:Hp; simpl; intros [= <- <- <-]; simpl; eauto 6.
Qed.

Lemma os_Rename_inv src dst w err w1 t :
  os_Rename src dst w = (err, w1, t) ->
  same_env w w1 /\ t = [EvRename src dst err] /\
  match err with
  | None => exists n, w_fs w !! src = Some n /\
                      w_fs w1 = <[dst := n]> (delete src (w_fs w))
  | Some _ => w_fs w1 = w_fs w
  end.
Proof.
  unfold os_Rename. prim_unfold.
  destruct w as [exe fs um http faults]; simpl.
  destruct faults as [|[flt|] rest]; simpl.
  all: try (intros [= <- <- <-]; simpl; by auto).
  all: destruct (fs !! src) eqn:Hp; simpl; intros [= <- <- <-]; simpl;
    repeat split; eauto.
Qed.

Lemma hideFile_inv p w err w1 t :
  hideFile p w = (err, w1, t) ->
  same_env w w1 /\
  match err with
  | None => t = [EvHide p None] /\
            exists n, w_fs w !! p = Some n /\
              w_fs w1 = <[p := mkNode (n_content n) (n_mode n) 2]> (w_fs w)
  | Some e => w_fs w1 = w_fs w /\
              ((t = [] /\ syscall_UTF16PtrFromString p = Err e) \/
               t = [EvHide p (Some e)])
  end.
Proof.
  unfold hideFile, syscall_UTF16PtrFromString.
  destruct (existsb has_nul p).
  { intros [= <- <- <-]. split; [apply same_env_refl|]. auto. }
  unfold SetFileAttributesW. prim_unfold.
  destruct w as [exe fs um http faults]; simpl.
  destruct faults as [|[flt|] rest]; simpl.
  all: try (intros [= <- <- <-]; simpl; by auto).
  all: destruct (fs !! p) eqn:Hp; simpl; intros [= <- <- <-]; simpl;
    repeat split; eauto.
Qed.

(** ** The replacement transaction *)

Section Transaction.
Context `{RT : Runtime}.

Lemma fromStream_no_executable updateWith w e :
  w_exe w = Err e ->
  fromStream updateWith w = ((Some e, None), w, []).
Proof. intros H. unfold fromStream, bind, os_Executable. by rewrite H. Qed.

Lemma fromStream_read_failed updateWith w p e :
  w_exe w = Ok p -> r_err updateWith = Some e ->
  fromStream updateWith w = ((Some e, None), w, []).
Proof.
  intros H He. unfold fromStream, bind, os_Executable, io_ReadAll.
  by rewrite H, He.
Qed.

Lemma fromStream_inv updateWith w p res w' evs :
  w_exe w = Ok p -> r_err updateWith = None ->
  fromStream updateWith w = (res, w', evs) ->
  same_env w w' /\ txn p (r_data updateWith) w res (w_fs w') evs.
Proof.
  intros Hexe Hrd H. unfold fromStream in H.
  apply bind_inv in H as (r0 & w0 & t0 & t & Hm & H & ->).
  unfold os_Executable in Hm. injection Hm as <- <- <-. rewrite Hexe in H.
  unfold io_ReadAll in H. rewrite Hrd in H. simpl in H.
  fold (newPath_of p) in H. fold (oldPath_of p) in H.
  apply bind_inv in H as (r1 & w1 & ? & ? & Ho & H & ->).
  apply os_OpenFile_inv in Ho as (Henv1 & -> & Ho).
  destruct r1 as [q|e]; simpl in *.
  2:{ apply ret_inv in H as (-> & -> & ->). split; [done|].
      rewrite Ho. apply txn_stage_failed. }
  destruct Ho as [Hq Hfs1].
  apply bind_inv in H as ([n cerr] & w2 & ? & ? & Hc & H & ->).
  apply io_Copy_inv in Hc as (Henv2 & written & -> & Hfs2 & Hwr).
  apply bind_inv in H as (? & ? & ? & ? & Hcl & H & ->).
  apply ret_inv in Hcl as (-> & -> & ->).
  apply bind_inv in H as (rerr & w3 & ? & ? & Hrm & H & ->).
  apply os_Remove_inv in Hrm as (Henv3 & -> & Hfs3).
  assert (Hst : staged p (r_data updateWith) w q written cerr rerr (w_fs w3)).
  { unfold staged. rewrite <- Hfs1, <- Hfs2. by destruct rerr. }
  clear Hq Hfs1 Hfs2 Hwr Hfs3.
  assert (Henv : same_env w w3) by eauto using same_env_trans.
  clear Henv1 Henv2 Henv3.
  apply bind_inv in H as (e1 & w4 & ? & ? & Hev & H & ->).
  apply os_Rename_inv in Hev as (Henv4 & -> & Hfs4).
  destruct e1 as [e1|].
  { apply ret_inv in H as (-> & -> & ->).
    split; [eauto using same_env_trans|]. rewrite Hfs4.
    by apply txn_evacuate_failed. }
  destruct Hfs4 as (nd & Hp & Hfs4).
  apply bind_inv in H as (e2 & w5 & ? & ? & Hpr & H & ->).
  apply os_Rename_inv in Hpr as (Henv5 & -> & Hfs5).
  assert (Henv' : same_env w w5) by eauto using same_env_trans.
  destruct e2 as [e2|].
  - apply bind_inv in H as (e3 & w6 & ? & ? & Hrc & H & ->).
    apply os_Rename_inv in Hrc as (Henv6 & -> & Hfs6).
    apply ret_inv in H as (-> & -> & ->).
    split; [eauto using same_env_trans|].
    destruct e3 as [e3|].
    + rewrite Hfs6, Hfs5, Hfs4. by eapply txn_unrecovered.
    + destruct Hfs6 as (nd' & Hold & ->). rewrite Hfs5, Hfs4 in Hold |- *.
      rewrite lookup_insert_eq in Hold. injection Hold as <-.
      by eapply txn_recovered.
  - destruct Hfs5 as (m & Hnew & Hfs5). rewrite Hfs4 in Hnew, Hfs5.
    apply bind_inv in H as (e3 & w6 & ? & ? & Hrm & H & ->).
    apply os_Remove_inv in Hrm as (Henv6 & -> & Hfs6).
    destruct e3 as [e3|].
    + apply bind_inv in H as (herr & w7 & hide_evs & ? & Hh & H & ->).
      apply hideFile_inv in Hh as (Henv7 & Hh).
      apply ret_inv in H as (-> & -> & ->).
      split; [eauto using same_env_trans|].
      rewrite Hfs6, Hfs5 in Hh.
      rewrite app_nil_r.
      eapply (txn_swapped_backup_left _ _ _ _ _ _ _ _ _ _ _ herr);
        [done..|].
      destruct herr; [by destruct Hh|].
      destruct Hh as (-> & k & Hk & ->). eauto.
    + apply ret_inv in H as (-> & -> & ->).
      split; [eauto using same_env_trans|].
      destruct Hfs6 as [_ ->]. rewrite Hfs5.
      by eapply txn_swapped_clean.
Qed.

(** ** Reading a trace *)

Ltac path_contra :=
  exfalso;
  match goal with
  | H : newPath_of ?p = ?p |- _ => exact (newPath_neq p H)
  | H : ?p = newPath_of ?p |- _ => exact (newPath_neq p (eq_sym H))
  | H : oldPath_of ?p = ?p |- _ => exact (oldPath_neq p H)
  | H : ?p = oldPath_of ?p |- _ => exact (oldPath_neq p (eq_sym H))
  | H : newPath_of ?p = oldPath_of ?p |- _ => exact (newPath_oldPath_neq p H)
  | H : oldPath_of ?p = newPath_of ?p |- _ =>
      exact (newPath_oldPath_neq p (eq_sym H))
  end.

Ltac split_in :=
  repeat match goal with
  | H : In _ (_ ++ _) |- _ => apply in_app_or in H as [H|H]
  | H : In _ (stage_events _ _ _ _ _) |- _ => unfold stage_events in H
  | H : In _ (_ :: _) |- _ => destruct H as [H|H]
  | H : In _ [] |- _ => destruct H
  end.

(** The three ways [hideFile] ends in a [txn_swapped_backup_left] run. *)
Ltac hide_cases :=
  match goal with
  | Hh : context [match ?herr with Some _ => _ | None => _ end] |- _ =>
      destruct herr;
      [destruct Hh as (-> & [[-> ?] | ->]) | destruct Hh as (-> & ? & ? & ->)]
  end.

Ltac trace_cases := split_in; simplify_eq; try path_contra.

(** ** The network side *)

Lemma fetch_run u url w :
  exists r, fetch u url w = (r, w, [EvFetch url]).
Proof.
  unfold fetch, HTTPRequester_Fetch, Requester_Fetch, bind, emit, ret.
  destruct (Requester u) as [rq|]; simpl.
  - destruct (rq url) as [[rc|] [e|]]; simpl; eauto.
  - destruct (w_http w url) as [e|code st body]; simpl; eauto.
    destruct (negb (code =? 200)%Z); eauto.
Qed.

Lemma set_Info_id u : set_Info u (Info u) = u.
Proof. by destruct u. Qed.

Lemma FetchInfo_run u w :
  exists err info,
    FetchInfo u w = ((err, set_Info u info), w, [EvFetch (manifest_url u)]).
Proof.
  unfold FetchInfo, bind.
  destruct (fetch_run u (manifest_url u) w) as [r ->].
  destruct r as [body|e]; simpl.
  - destruct (json_Decode body (Info u)) as [info err]. simpl. eauto.
  - exists (Some e), (Info u). by rewrite set_Info_id.
Qed.

Lemma fetchFullBin_run u w :
  exists r, fetchFullBin u w = (r, w, [EvFetch (artifact_url u)]).
Proof.
  unfold fetchFullBin, fetchBin, bind.
  destruct (fetch_run u (artifact_url u) w) as [r ->].
  destruct r as [body|e]; simpl; [|eauto].
  destruct (zstd_NewReader body) as [[decoded [e|]]|e]; simpl; eauto.
Qed.

(** ** [Update] and [UpdateForce] around the transaction *)

(** The part [Update] and [UpdateForce] share, from [os.Open] on. *)
Lemma install_tail_inv (u : Updater) (path : path) w res u' w' evs :
  (do r <- os_Open path;
   match r with
   | Err err => ret (Some err, u)
   | Ok old =>
       do r <- fetchFullBin u;
       match r with
       | Err err => emit (println_fetchFullBin err);; ret (Some err, u)
       | Ok bin =>
           file_Close old;;
           do (err, errRecover) <- fromStream (bytes_NewBuffer bin);
           match errRecover with
           | Some _ => ret (Some (update_and_recovery_errors err errRecover), u)
           | None =>
               match err with
               | Some err => ret (Some err, u)
               | None =>
                   (if OnSuccessfulUpdate u
                    then emit EvOnSuccessfulUpdate else ret tt);;
                   ret (None, u)
               end
           end
       end
   end) w = ((res, u'), w', evs) ->
  u' = u /\ installs u w res w' evs.
Proof.
  intros H.
  apply bind_inv in H as (r & w1 & ? & ? & Ho & H & ->).
  apply os_Open_inv in Ho as (Henv1 & Hfs1 & ->).
  destruct r as [old|e].
  2:{ apply ret_inv in H as ([= -> ->] & -> & ->). split; [done|]. left.
      repeat split; try done; try apply Henv1. intros url Hin.
      by trace_cases. }
  apply bind_inv in H as (r & w2 & ? & ? & Hf & H & ->).
  destruct (fetchFullBin_run u w1) as [r' Hf']. rewrite Hf' in Hf.
  injection Hf as <- <- <-.
  destruct r' as [bin|e].
  2:{ apply bind_inv in H as (? & ? & ? & ? & [= <- <- <-] & H & ->).
      apply ret_inv in H as ([= -> ->] & -> & ->). split; [done|]. left.
      repeat split; try done; try apply Henv1. intros url Hin.
      by trace_cases. }
  apply bind_inv in H as (? & ? & ? & ? & Hcl & H & ->).
  apply ret_inv in Hcl as (-> & -> & ->).
  apply bind_inv in H as ([err errRecover] & w3 & t & post & Hfs & H & ->).
  assert (u' = u /\ res = verdict (err, errRecover) /\ w' = w3 /\
          post = after_swap u (err, errRecover)) as (-> & -> & -> & ->).
  { destruct errRecover as [e2|]; [|destruct err as [e1|]].
    - apply ret_inv in H as ([= -> ->] & -> & ->). by destruct err.
    - by apply ret_inv in H as ([= -> ->] & -> & ->).
    - apply bind_inv in H as (? & w4 & ? & ? & Hcb & H & ->).
      apply ret_inv in H as ([= -> ->] & -> & ->). simpl.
      destruct (OnSuccessfulUpdate u).
      + by injection Hcb as <- <- <-.
      + by apply ret_inv in Hcb as (_ & -> & ->). }
  split; [done|]. right.
  exists [EvOpen path None; EvFetch (artifact_url u)], w1, bin,
    (err, errRecover), t.
  repeat split; try done; try apply Henv1.
  intros url Hin. by trace_cases.
Qed.

Lemma EvalSymlinks_run p w :
  exists r, filepath_EvalSymlinks p w = (r, w, [EvEvalSymlinks p]).
Proof.
  unfold filepath_EvalSymlinks, bind, emit, get_fs, ret. simpl.
  destruct (follow (w_fs w) 255 p) as [q|]; [|eauto].
  destruct (w_fs w !! q); eauto.
Qed.

Lemma Update_inv u w p res u' w' evs :
  w_exe w = Ok p ->
  Update u w = ((res, u'), w', evs) ->
  exists t,
    evs = [EvEvalSymlinks p; EvFetch (manifest_url u)] ++ t /\
    OnSuccessfulUpdate u' = OnSuccessfulUpdate u /\
    installs u' w res w' t.
Proof.
  intros Hexe H. unfold Update in H.
  apply bind_inv in H as (? & ? & ? & ? & [= <- <- <-] & H & ->).
  rewrite Hexe in H.
  apply bind_inv in H as (r & ? & ? & ? & Hs & H & ->).
  destruct (EvalSymlinks_run p w) as [r' Hs']. rewrite Hs' in Hs.
  injection Hs as <- <- <-.
  apply bind_inv in H as ([err u1] & ? & ? & t & Hf & H & ->).
  destruct (FetchInfo_run u w) as (err' & info & Hf'). rewrite Hf' in Hf.
  injection Hf as <- <- <- <-.
  exists t. split; [done|].
  assert (Hquiet : installs (set_Info u info) w res w []).
  { left. repeat split; try done; by intros url []. }
  destruct err' as [e|].
  { by apply ret_inv in H as ([= -> ->] & -> & ->). }
  destruct (String.eqb _ _).
  { by apply ret_inv in H as ([= -> ->] & -> & ->). }
  apply install_tail_inv in H as [-> H]. by split.
Qed.

Lemma UpdateForce_inv u w p res u' w' evs :
  w_exe w = Ok p ->
  UpdateForce u w = ((res, u'), w', evs) ->
  exists t, evs = [EvEvalSymlinks p] ++ t /\ u' = u /\ installs u w res w' t.
Proof.
  intros Hexe H. unfold UpdateForce in H.
  apply bind_inv in H as (? & ? & ? & ? & [= <- <- <-] & H & ->).
  rewrite Hexe in H.
  apply bind_inv in H as (r & ? & ? & t & Hs & H & ->).
  destruct (EvalSymlinks_run p w) as [r' Hs']. rewrite Hs' in Hs.
  injection Hs as <- <- <-.
  exists t. split; [done|].
  by apply install_tail_inv in H as [-> H].
Qed.

(** Renames happen inside the transaction only. *)
Lemma quiet_not_rename pre src dst e :
  forallb quiet pre = true -> ~ In (EvRename src dst e) pre.
Proof.
  intros Hq Hin. rewrite forallb_forall in Hq. by apply Hq in Hin.
Qed.

Lemma after_swap_not_rename u r src dst e :
  ~ In (EvRename src dst e) (after_swap u r).
Proof.
  destruct r as [[?|] [?|]]; simpl; try tauto.
  destruct (OnSuccessfulUpdate u); simpl; intuition discriminate.
Qed.

(** When the promote rename fails, [fromStream] hands back its error, and
    the outcome of the recovery rename beside it. *)
Lemma fromStream_promote_failure updateWith w p res w' evs e1 :
  w_exe w = Ok p ->
  fromStream updateWith w = (res, w', evs) ->
  In (EvRename (newPath_of p) p (Some e1)) evs ->
  res.1 = Some e1 /\
  (In (EvRename (oldPath_of p) p None) evs -> res.2 = None) /\
  (forall e2, In (EvRename (oldPath_of p) p (Some e2)) evs -> res.2 = Some e2).
Proof.
  intros Hexe H Hin.
  destruct (r_err updateWith) as [e|] eqn:Hrd.
  { rewrite (fromStream_read_failed _ _ _ _ Hexe Hrd) in H.
    injection H as <- <- <-. destruct Hin. }
  apply (fromStream_inv _ _ _ _ _ _ Hexe Hrd) in H as [_ H].
  destruct H; trace_cases.
  - split; [done|]. split; [done|]. intros e2 H2. trace_cases.
  - split; [done|]. split; [intros H2; trace_cases|].
    intros e2 H2. by trace_cases.
  - hide_cases; trace_cases.
Qed.

Lemma installs_promote_failure u w p res w' evs e1 :
  w_exe w = Ok p ->
  installs u w res w' evs ->
  In (EvRename (newPath_of p) p (Some e1)) evs ->
  (In (EvRename (oldPath_of p) p None) evs -> res = Some e1) /\
  (forall e2, In (EvRename (oldPath_of p) p (Some e2)) evs ->
              res = Some (update_and_recovery_errors (Some e1) (Some e2))).
Proof.
  intros Hexe [(_ & _ & Hq & _)|(pre & w1 & bin & r & t & Henv & _ & Hq & _ & Hrun & -> & ->)] Hin.
  { by apply quiet_not_rename in Hin. }
  assert (Hexe1 : w_exe w1 = Ok p) by (destruct Henv as [-> _]; done).
  assert (Hloc : forall src dst e,
             In (EvRename src dst e) (pre ++ t ++ after_swap u r) ->
             In (EvRename src dst e) t).
  { intros src dst e H. apply in_app_or in H as [H|H].
    - by apply quiet_not_rename in H.
    - apply in_app_or in H as [H|H]; [done|].
      by apply after_swap_not_rename in H. }
  apply Hloc in Hin.
  destruct (fromStream_promote_failure _ _ _ _ _ _ _ Hexe1 Hrun Hin)
    as (H1 & H2 & H3).
  destruct r as [err errRecover]. simpl in *. subst err. split.
  - intros H. apply Hloc, H2 in H. by subst.
  - intros e2 H. apply Hloc, H3 in H. by subst.
Qed.

(** C2. Whenever the promote rename (staged to original) fails in a run of
    [Update] or of [UpdateForce]: if the recovery rename (backup to
    original) succeeds, the call returns exactly the promote error; if the
    recovery rename fails too, the call returns the error made by
    [fmt.Errorf("update and recovery errors: %q %q", err, errRecover)],
    whose message contains the quoted text of the promote error and the
    quoted text of the recovery error. *)
Theorem promote_failure_errors u w p res u' w' evs e1 :
  w_exe w = Ok p ->
  Update u w = ((res, u'), w', evs) \/ UpdateForce u w = ((res, u'), w', evs) ->
  In (EvRename (newPath_of p) p (Some e1)) evs ->
  (In (EvRename (oldPath_of p) p None) evs -> res = Some e1) /\
  (forall e2, In (EvRename (oldPath_of p) p (Some e2)) evs ->
     exists msg,
       res = Some (errorString msg) /\
       contains (strconv_Quote (Error e1)) msg /\
       contains (strconv_Quote (Error e2)) msg).
Proof.
  intros Hexe Hrun Hin.
  assert (exists u1 pre t, evs = pre ++ t /\ forallb quiet pre = true /\
                           installs u1 w res w' t) as (u1 & pre & t & -> & Hq & Hi).
  { destruct Hrun as [H|H].
    - apply (Update_inv _ _ _ _ _ _ _ Hexe) in H as (t & -> & _ & H).
      by exists u', [EvEvalSymlinks p; EvFetch (manifest_url u)], t.
    - apply (UpdateForce_inv _ _ _ _ _ _ _ Hexe) in H as (t & -> & _ & H).
      by exists u, [EvEvalSymlinks p], t. }
  assert (Hloc : forall src dst e,
             In (EvRename src dst e) (pre ++ t) -> In (EvRename src dst e) t).
  { intros src dst e H. apply in_app_or in H as [H|H]; [|done].
    by apply quiet_not_rename in H. }
  apply Hloc in Hin.
  destruct (installs_promote_failure _ _ _ _ _ _ _ Hexe Hi Hin) as [H1 H2].
  split.
  - intros H. by apply Hloc, H1 in H.
  - intros e2 H. apply Hloc, H2 in H. subst res.
    eexists. split; [reflexivity|]. unfold fmt_q. split.
    + exists "update and recovery errors: ",
        (" " +:+ strconv_Quote (Error e2)). done.
    + exists ("update and recovery errors: " +:+ strconv_Quote (Error e1)
                +:+ " "), "".
      by rewrite string_app_nil_r, !string_app_assoc.
Qed.

(** ** The file system after the transaction *)

Lemma follow_regular fs fuel q :
  regular_or_free fs q -> follow fs fuel q = Some q.
Proof.
  intros Hreg. destruct fuel; unfold follow.
  all: destruct (fs !! q) as [n|] eqn:Hq; [|done].
  all: by destruct (Hreg n Hq) as [d ->].
Qed.

Lemma follow_lands fs fuel p q :
  follow fs fuel p = Some q -> regular_or_free fs q.
Proof.
  revert p. induction fuel as [|k IH]; intros p; unfold follow; fold follow.
  all: destruct (fs !! p) as [n|] eqn:Hp;
    [destruct (n_content n) as [d|t] eqn:Hn|].
  all: try (intros [= <-]; intros n' Hn'; simplify_eq; eauto; fail).
  apply IH.
Qed.

Lemma staged_lands p B w q written cerr rerr fs3 :
  staged p B w q written cerr rerr fs3 -> regular_or_free (w_fs w) q.
Proof. intros (Hq & _). by apply follow_lands in Hq. Qed.

Ltac lookups :=
  unfold promoted, evacuated in *;
  rewrite ?lookup_insert_eq, ?lookup_delete_eq;
  repeat first
    [ rewrite lookup_insert_ne
        by first [apply newPath_neq | apply oldPath_neq
                 | apply newPath_oldPath_neq
                 | apply not_eq_sym, newPath_neq | apply not_eq_sym, oldPath_neq
                 | apply not_eq_sym, newPath_oldPath_neq]
    | rewrite lookup_delete_ne
        by first [apply newPath_neq | apply oldPath_neq
                 | apply newPath_oldPath_neq
                 | apply not_eq_sym, newPath_neq | apply not_eq_sym, oldPath_neq
                 | apply not_eq_sym, newPath_oldPath_neq]
    | rewrite lookup_alter_ne
        by first [apply newPath_neq | apply oldPath_neq
                 | apply newPath_oldPath_neq
                 | apply not_eq_sym, newPath_neq | apply not_eq_sym, oldPath_neq
                 | apply not_eq_sym, newPath_oldPath_neq]
    | rewrite lookup_insert_eq
    | rewrite lookup_delete_eq
    | rewrite lookup_alter_eq ].

(** With a staging name that is free or a regular file, the staged file sits
    at [.name.new], holds what was written, and the original is as it was. *)
Lemma staged_new p B w q written cerr rerr fs3 :
  regular_or_free (w_fs w) (newPath_of p) ->
  staged p B w q written cerr rerr fs3 ->
  q = newPath_of p /\
  fs3 !! p = w_fs w !! p /\
  fs3 !! newPath_of p =
    Some (mkNode (Data written)
                 (n_mode (created w (newPath_of p) perm_0755))
                 (n_attrs (created w (newPath_of p) perm_0755))).
Proof.
  intros Hreg (Hq & _ & Hfs).
  rewrite (follow_regular _ _ _ Hreg) in Hq. injection Hq as <-.
  split; [done|].
  assert (Hcr : n_content (created w (newPath_of p) perm_0755) = Data []).
  { unfold created. by destruct (w_fs w !! newPath_of p). }
  cbv zeta in Hfs.
  destruct rerr as [e|]; [|destruct Hfs as [_ Hfs]]; subst fs3.
  all: split; lookups; try done.
  all: simpl; unfold append_data; by rewrite Hcr.
Qed.

(** C3, as amended.  For every byte string [B], with a staging name
    [.name.new] that is not a symbolic link: when a run of [fromStream] on
    [B] stages it (the file is created and all of [B] is copied into it)
    and performs both renames successfully, it returns no error, the
    canonical path holds a file containing exactly [B], and no [.name.new]
    remains.  Right after the promotion it tries to delete the backup
    [.name.old], and that is the end of the run when the deletion succeeds:
    the backup is gone.  When the deletion fails, [hideFile] is called on
    the backup, once, and nothing else follows: the backup is the original
    executable, marked hidden when [hideFile] succeeds, and exactly as the
    original was, hidden or not, when [hideFile] fails (its error is
    ignored). *)
Theorem successful_swap B w p res w' evs :
  w_exe w = Ok p ->
  regular_or_free (w_fs w) (newPath_of p) ->
  fromStream (bytes_NewBuffer B) w = (res, w', evs) ->
  In (EvOpenFile (newPath_of p) perm_0755 None) evs ->
  In (EvWrite (newPath_of p) (length B) None) evs ->
  In (EvRename p (oldPath_of p) None) evs ->
  In (EvRename (newPath_of p) p None) evs ->
  res = (None, None) /\
  (exists n, w_fs w' !! p = Some n /\ n_content n = Data B) /\
  w_fs w' !! newPath_of p = None /\
  exists orig pre rerr tail,
    w_fs w !! p = Some orig /\
    evs = pre ++ [EvRename (newPath_of p) p None;
                  EvRemove (oldPath_of p) rerr] ++ tail /\
    match rerr with
    | None => tail = [] /\ w_fs w' !! oldPath_of p = None
    | Some _ =>
        (tail = [EvHide (oldPath_of p) None] /\
         w_fs w' !! oldPath_of p
         = Some (mkNode (n_content orig) (n_mode orig) FILE_ATTRIBUTE_HIDDEN))
        \/ (exists he,
              (tail = [EvHide (oldPath_of p) (Some he)]
               \/ (tail = [] /\
                   syscall_UTF16PtrFromString (oldPath_of p) = Err he)) /\
              w_fs w' !! oldPath_of p = Some orig)
    end.
Proof.
  intros Hexe Hreg H _ Hcopy _ Hpromote.
  apply (fromStream_inv (bytes_NewBuffer B) _ _ _ _ _ Hexe eq_refl) in H
    as [_ H].
  simpl in H.
  destruct H as [e|q written cerr rerr fs3 e Hst|q written cerr rerr fs3 n e Hst Hp
                |q written cerr rerr fs3 n e e' Hst Hp
                |q written cerr rerr fs3 n m Hst Hp Hm
                |q written cerr rerr fs3 n m e herr fs' hide_evs Hst Hp Hm Hh].
  1-4: exfalso; clear Hcopy; trace_cases.
  - assert (q = newPath_of p /\ cerr = None) as [-> ->].
    { clear Hpromote. by trace_cases. }
    destruct (staged_new _ _ _ _ _ _ _ _ Hreg Hst) as (_ & Horig & Hnew).
    destruct (Hst) as (_ & Hwr & _). rewrite (Hwr eq_refl) in Hnew.
    revert Hm. lookups. rewrite Hnew. intros [= <-].
    split; [done|]. split; [|split].
    + eexists. by lookups.
    + by lookups.
    + exists n,
        (stage_events p (newPath_of p) written None rerr
           ++ [EvRename p (oldPath_of p) None]), None, [].
      split; [by rewrite <- Horig|]. split.
      * rewrite <- app_assoc. reflexivity.
      * split; [done|]. by lookups.
  - assert (q = newPath_of p /\ cerr = None) as [-> ->].
    { clear Hpromote. hide_cases; by trace_cases. }
    destruct (staged_new _ _ _ _ _ _ _ _ Hreg Hst) as (_ & Horig & Hnew).
    destruct (Hst) as (_ & Hwr & _). rewrite (Hwr eq_refl) in Hnew.
    revert Hm. lookups. rewrite Hnew. intros [= <-].
    split; [done|]. clear Hcopy Hpromote.
    assert (Hevs :
      stage_events p (newPath_of p) written None rerr
        ++ [EvRename p (oldPath_of p) None; EvRename (newPath_of p) p None;
            EvRemove (oldPath_of p) (Some e)] ++ hide_evs
      = (stage_events p (newPath_of p) written None rerr
           ++ [EvRename p (oldPath_of p) None])
        ++ [EvRename (newPath_of p) p None;
            EvRemove (oldPath_of p) (Some e)] ++ hide_evs).
    { rewrite <- app_assoc. reflexivity. }
    destruct herr as [he|].
    + destruct Hh as (-> & Hh). split; [|split].
      * eexists. by lookups.
      * by lookups.
      * exists n, (stage_events p (newPath_of p) written None rerr
                     ++ [EvRename p (oldPath_of p) None]), (Some e), hide_evs.
        split; [by rewrite <- Horig|]. split; [exact Hevs|].
        right. exists he. split; [|by lookups].
        destruct Hh as [[-> Hu]| ->]; [by right|by left].
    + destruct Hh as (-> & k & Hk & ->). revert Hk. lookups. intros [= <-].
      split; [|split].
      * eexists. by lookups.
      * by lookups.
      * exists n, (stage_events p (newPath_of p) written None rerr
                     ++ [EvRename p (oldPath_of p) None]), (Some e),
          [EvHide (oldPath_of p) None].
        split; [by rewrite <- Horig|]. split; [exact Hevs|].
        left. split; [done|]. by lookups.
Qed.

Lemma free_regular fs q : fs !! q = None -> regular_or_free fs q.
Proof. intros H n Hn. congruence. Qed.

(** The first thing [fromStream] does to the world is to open the staging
    name, with the permission argument 0755. *)
Lemma fromStream_opens B w p res w' evs :
  w_exe w = Ok p ->
  fromStream (bytes_NewBuffer B) w = (res, w', evs) ->
  exists r w1 rest,
    os_OpenFile (newPath_of p) perm_0755 w
      = (r, w1, [EvOpenFile (newPath_of p) perm_0755 (err_of r)]) /\
    evs = EvOpenFile (newPath_of p) perm_0755 (err_of r) :: rest.
Proof.
  intros Hexe H. unfold fromStream in H.
  apply bind_inv in H as (r0 & w0 & t0 & t & Hm & H & ->).
  unfold os_Executable in Hm. injection Hm as <- <- <-. rewrite Hexe in H.
  simpl in H. fold (newPath_of p) in H.
  apply bind_inv in H as (r1 & w1 & t1 & t2 & Ho & H & ->).
  pose proof (os_OpenFile_inv _ _ _ _ _ _ Ho) as (_ & -> & _).
  by exists r1, w1, t2.
Qed.

(** C9, as amended.  Whenever the path of the executable is known,
    [fromStream] opens the name [.name.new] in the directory of the
    original, and it opens no other file for writing and uses no other
    permission argument than 0755.  When that name is free and the open
    succeeds, the run has created the file with the bits 0755 less the
    umask, whatever the bits of the original are; the file is found at the
    canonical path once promoted, and at [.name.new] otherwise. *)
Theorem staged_file_mode B w p res w' evs :
  w_exe w = Ok p ->
  fromStream (bytes_NewBuffer B) w = (res, w', evs) ->
  (exists e, In (EvOpenFile (newPath_of p) perm_0755 e) evs) /\
  filepath_Dir (newPath_of p) = filepath_Dir p /\
  filepath_Base (newPath_of p) = dot_new (filepath_Base p) /\
  (forall q perm e, In (EvOpenFile q perm e) evs ->
     q = newPath_of p /\ perm = perm_0755) /\
  (forall q w1 t,
     w_fs w !! newPath_of p = None ->
     os_OpenFile (newPath_of p) perm_0755 w = (Ok q, w1, t) ->
     In (EvOpenFile (newPath_of p) perm_0755 None) evs /\
     exists nd,
       n_mode nd = Z.ldiff perm_0755 (w_umask w) /\
       ((In (EvRename (newPath_of p) p None) evs /\
         w_fs w' !! p = Some nd) \/
        (~ In (EvRename (newPath_of p) p None) evs /\
         w_fs w' !! newPath_of p = Some nd))).
Proof.
  intros Hexe H.
  destruct (fromStream_opens _ _ _ _ _ _ Hexe H)
    as (r & w1' & rest & Hrun & Hevs).
  apply (fromStream_inv (bytes_NewBuffer B) _ _ _ _ _ Hexe eq_refl) in H
    as [_ H].
  simpl in H.
  split; [exists (err_of r); rewrite Hevs; by left|].
  split; [unfold newPath_of; by rewrite dir_join|].
  split; [unfold newPath_of; by rewrite base_join|].
  split.
  - intros q0 perm e0 Hin. clear Hevs.
    destruct H; try hide_cases; by trace_cases.
  - intros q1 w1 t Hfree Hok. rewrite Hok in Hrun.
    injection Hrun as <- _. simpl in Hevs.
    assert (Hopen : In (EvOpenFile (newPath_of p) perm_0755 None) evs)
      by (rewrite Hevs; by left).
    split; [done|]. clear Hevs Hok rest.
    pose proof (free_regular _ _ Hfree) as Hreg.
    assert (Hmode : n_mode (created w (newPath_of p) perm_0755)
                    = Z.ldiff perm_0755 (w_umask w)).
    { unfold created. by rewrite Hfree. }
    destruct H as [e|q written cerr rerr fs3 e Hst|q written cerr rerr fs3 n e Hst Hp
                  |q written cerr rerr fs3 n e e' Hst Hp
                  |q written cerr rerr fs3 n m Hst Hp Hm
                  |q written cerr rerr fs3 n m e herr fs' hide_evs Hst Hp Hm Hh].
    { exfalso. trace_cases. }
    all: destruct (staged_new _ _ _ _ _ _ _ _ Hreg Hst) as (-> & Horig & Hnew).
    all: exists (mkNode (Data written)
                   (n_mode (created w (newPath_of p) perm_0755))
                   (n_attrs (created w (newPath_of p) perm_0755)));
      split; [exact Hmode|].
    1-3: right; split; [intros Hin; clear Hopen; trace_cases|].
    1-3: lookups; exact Hnew.
    all: left; revert Hm; lookups; rewrite Hnew; intros [= <-].
    + split; [apply in_or_app; right; right; by left|]. by lookups.
    + split; [apply in_or_app; right; right; by left|].
      destruct herr as [he|].
      * destruct Hh as (-> & _). by lookups.
      * destruct Hh as (_ & k & _ & ->). by lookups.
Qed.

(** ** The decision and the check *)

Lemma WantUpdate_dev u : CurrentVersion u = "dev" -> WantUpdate u = false.
Proof. unfold WantUpdate. by intros ->. Qed.

Lemma WantUpdate_other u : CurrentVersion u <> "dev" -> WantUpdate u = true.
Proof.
  unfold WantUpdate. intros H.
  by destruct (String.eqb_spec (CurrentVersion u) "dev").
Qed.

(** With the sentinel version [BackgroundRun] does nothing at all. *)
Lemma BackgroundRun_dev u w :
  CurrentVersion u = "dev" -> BackgroundRun u w = ((None, u), w, []).
Proof. intros H. unfold BackgroundRun. by rewrite (WantUpdate_dev _ H). Qed.

(** [Update] has no such gate: whatever the current version is, it asks for
    the manifest as soon as the executable path is known. *)
Lemma Update_always_fetches u w p res u' w' evs :
  w_exe w = Ok p ->
  Update u w = ((res, u'), w', evs) ->
  In (EvFetch (manifest_url u)) evs.
Proof.
  intros Hexe H.
  apply (Update_inv _ _ _ _ _ _ _ Hexe) in H as (t & -> & _). right. by left.
Qed.

(** The transaction itself makes no network request. *)
Lemma fromStream_no_fetch updateWith w p res w' evs url :
  w_exe w = Ok p ->
  fromStream updateWith w = (res, w', evs) ->
  ~ In (EvFetch url) evs.
Proof.
  intros Hexe H Hin.
  destruct (r_err updateWith) as [e|] eqn:Hrd.
  { rewrite (fromStream_read_failed _ _ _ _ Hexe Hrd) in H.
    injection H as <- <- <-. destruct Hin. }
  apply (fromStream_inv _ _ _ _ _ _ Hexe Hrd) in H as [_ H].
  destruct H; try hide_cases; trace_cases.
Qed.

(** [UpdateForce] never resolves the manifest: it leaves [u.Info] as it
    found it, and its only request is for the artifact of that version. *)
Lemma UpdateForce_requests u w p res u' w' evs :
  w_exe w = Ok p ->
  UpdateForce u w = ((res, u'), w', evs) ->
  u' = u /\ forall url, In (EvFetch url) evs -> url = artifact_url u.
Proof.
  intros Hexe H.
  apply (UpdateForce_inv _ _ _ _ _ _ _ Hexe) in H as (t & -> & -> & H).
  split; [done|]. intros url [Hin|Hin]; [done|]. simpl in Hin.
  destruct H as [(_ & _ & _ & Hf)|(pre & w1 & bin & r & t' & Henv & _ & _ & Hf
                                    & Hrun & -> & _)]; [by apply Hf|].
  apply in_app_or in Hin as [Hin|Hin]; [by apply Hf|].
  apply in_app_or in Hin as [Hin|Hin].
  - assert (Hexe1 : w_exe w1 = Ok p) by (destruct Henv as [-> _]; done).
    by apply (fromStream_no_fetch _ _ _ _ _ _ url Hexe1 Hrun) in Hin.
  - destruct r as [[?|] [?|]]; simpl in Hin; try done.
    destruct (OnSuccessfulUpdate u); by trace_cases.
Qed.

(** When the staged file cannot even be created, the transaction stops
    there: the error comes back, nothing is renamed, nothing has changed. *)
Lemma fromStream_create_failure updateWith w p res w' evs e :
  w_exe w = Ok p ->
  fromStream updateWith w = (res, w', evs) ->
  In (EvOpenFile (newPath_of p) perm_0755 (Some e)) evs ->
  res = (Some e, None) /\ w_fs w' = w_fs w /\
  List.filter is_rename evs = [].
Proof.
  intros Hexe H Hin.
  destruct (r_err updateWith) as [e0|] eqn:Hrd.
  { rewrite (fromStream_read_failed _ _ _ _ Hexe Hrd) in H.
    injection H as <- <- <-. destruct Hin. }
  apply (fromStream_inv _ _ _ _ _ _ Hexe Hrd) in H as [_ H].
  destruct H; try hide_cases; by trace_cases.
Qed.

(** On a session whose manifest is already resolved, [UpdateForce] does
    what [UpdateForce_as_specified] does after its manifest request. *)
Lemma UpdateForce_once_resolved u u1 w p res u' w' t :
  w_exe w = Ok p ->
  FetchInfo u w = ((None, u1), w, [EvFetch (manifest_url u)]) ->
  UpdateForce u1 w = ((res, u'), w', EvEvalSymlinks p :: t) ->
  UpdateForce_as_specified u w
    = ((res, u'), w', EvEvalSymlinks p :: EvFetch (manifest_url u) :: t).
Proof.
  intros Hexe Hf H. unfold UpdateForce in H.
  apply bind_inv in H as (? & ? & ? & ? & [= <- <- <-] & H & Ht).
  rewrite Hexe in H.
  apply bind_inv in H as (r & ? & ? & t' & Hs & H & ->).
  destruct (EvalSymlinks_run p w) as [r' Hs']. rewrite Hs' in Hs.
  injection Hs as <- <- <-. injection Ht as <-.
  unfold UpdateForce_as_specified, bind at 1, os_Executable. rewrite Hexe.
  unfold bind at 1. rewrite Hs'. unfold bind at 1. rewrite Hf.
  cbv beta iota. rewrite H. done.
Qed.

(** A failed copy does not stop the transaction, and its error is never
    what a completed swap returns. *)
Lemma fromStream_copy_failure_ignored B w p res w' evs q n e :
  w_exe w = Ok p ->
  fromStream (bytes_NewBuffer B) w = (res, w', evs) ->
  In (EvWrite q n (Some e)) evs ->
  In (EvRename (newPath_of p) p None) evs ->
  res = (None, None).
Proof.
  intros Hexe H _ Hpromote.
  apply (fromStream_inv (bytes_NewBuffer B) _ _ _ _ _ Hexe eq_refl) in H
    as [_ H].
  destruct H; try done; exfalso; trace_cases.
Qed.

(** C7. Whenever [UpdateAvailable] gets to fetch a manifest (the executable
    is known and can be opened, the manifest URL yields a body, the body
    decodes to [info]), it returns no error and a version string that is
    empty if the manifest version is exactly the current version, and is the
    manifest version otherwise, whatever the two strings are. *)
Theorem UpdateAvailable_exact_match u w p old w1 t body info :
  w_exe w = Ok p ->
  os_Open p w = (Ok old, w1, t) ->
  fetch u (manifest_url u) w1 = (Ok body, w1, [EvFetch (manifest_url u)]) ->
  json_Decode body (Info u) = (info, None) ->
  exists v,
    UpdateAvailable u w
      = ((v, None, set_Info u info), w1, t ++ [EvFetch (manifest_url u)]) /\
    (Version info = CurrentVersion u -> v = "") /\
    (Version info <> CurrentVersion u -> v = Version info).
Proof.
  intros Hexe Hopen Hfetch Hdec.
  unfold UpdateAvailable, bind, os_Executable. rewrite Hexe, Hopen.
  unfold FetchInfo, bind. rewrite Hfetch, Hdec. simpl.
  destruct (String.eqb_spec (Version info) (CurrentVersion u)) as [Heq|Hne].
  - by exists "".
  - by exists (Version info).
Qed.

(** C8. Whenever the manifest [Update] fetches carries exactly the current
    version, [Update] returns nil right after that fetch: the world is left
    as it was, the trace holds no file-system mutation, and the manifest
    request is the only network request.  This holds for every call in that
    state, a second one included. *)
Theorem Update_up_to_date u w p body info :
  w_exe w = Ok p ->
  fetch u (manifest_url u) w = (Ok body, w, [EvFetch (manifest_url u)]) ->
  json_Decode body (Info u) = (info, None) ->
  Version info = CurrentVersion u ->
  exists evs,
    Update u w = ((None, set_Info u info), w, evs) /\
    evs = [EvEvalSymlinks p; EvFetch (manifest_url u)] /\
    forallb quiet evs = true /\
    List.filter is_network evs = [EvFetch (manifest_url u)].
Proof.
  intros Hexe Hfetch Hdec Heq.
  eexists. split; [|by repeat split].
  unfold Update, bind, os_Executable. rewrite Hexe.
  destruct (EvalSymlinks_run p w) as [r ->].
  unfold FetchInfo, bind. rewrite Hfetch, Hdec. simpl.
  by rewrite Heq, String.eqb_refl.
Qed.

(** C10. [UpdateAvailable] returns the error, with no version and without
    any network request, whenever the path of the executable cannot be
    determined, and whenever the executable cannot be opened; and no run of
    it changes the file system or even attempts to. *)
Theorem UpdateAvailable_read_only u w :
  (forall e, w_exe w = Err e ->
     UpdateAvailable u w = (("", Some e, u), w, [])) /\
  (forall p e w1 t, w_exe w = Ok p -> os_Open p w = (Err e, w1, t) ->
     UpdateAvailable u w = (("", Some e, u), w1, t) /\
     List.filter is_network t = []) /\
  (forall v err u' w' evs,
     UpdateAvailable u w = ((v, err, u'), w', evs) ->
     w_fs w' = w_fs w /\ forallb quiet evs = true).
Proof.
  split; [|split].
  - intros e He. unfold UpdateAvailable, bind, os_Executable. by rewrite He.
  - intros p e w1 t He Ho. split.
    + unfold UpdateAvailable, bind, os_Executable. rewrite He, Ho. simpl.
      by rewrite app_nil_r.
    + by apply os_Open_inv in Ho as (_ & _ & ->).
  - intros v err u' w' evs H. unfold UpdateAvailable in H.
    apply bind_inv in H as (? & ? & ? & ? & [= <- <- <-] & H & ->).
    destruct (w_exe w) as [p|e0] eqn:Hexe.
    2:{ by apply ret_inv in H as ([= -> -> ->] & -> & ->). }
    apply bind_inv in H as (r & w1 & ? & ? & Ho & H & ->).
    apply os_Open_inv in Ho as (_ & Hfs1 & ->).
    destruct r as [old|e0].
    2:{ by apply ret_inv in H as ([= -> -> ->] & -> & ->). }
    apply bind_inv in H as ([ferr u1] & w2 & ? & post & Hf & H & ->).
    destruct (FetchInfo_run u w1) as (ferr' & info & Hf'). rewrite Hf' in Hf.
    injection Hf as <- <- <- <-.
    assert (w' = w1 /\ post = []) as [-> ->].
    { destruct ferr' as [e0|]; [|destruct (String.eqb _ _)].
      all: by apply ret_inv in H as (_ & -> & ->). }
    done.
Qed.

End Transaction.

(** ** The scenarios *)

(** C1. With the file created and the copy failing after one byte (a full
    disk), [fromStream] goes on: it performs both renames, returns no error
    at all, and the canonical path holds the truncated file. *)
Theorem copy_failure_is_swallowed :
  let w := demo_world 0x1ed [None; Some (mkFault (errorString "disk full") 1)] in
  let '(res, w', evs) := fromStream (bytes_NewBuffer new_image) w in
  res = (None, None) /\
  evs = [EvOpenFile demo_new 0x1ed None;
         EvWrite demo_new 1 (Some (errorString "disk full"));
         EvRemove demo_old (Some (PathError "remove" demo_old ENOENT));
         EvRename demo_exe demo_old None;
         EvRename demo_new demo_exe None;
         EvRemove demo_old None] /\
  w_fs w' !! demo_exe = Some (mkNode (Data [x02]) 0x1ed 0) /\
  w_fs w' !! demo_old = None.
Proof. vm_compute. by repeat split. Qed.

(** C3, the claim as stated fails.  Staging and both renames succeed, the
    call returns no error and the canonical path holds the new bytes; the
    backup cannot be deleted (file in use) and [hideFile] fails as well, so
    the backup stays, neither deleted nor hidden. *)
Lemma backup_left_visible :
  let w := demo_world 0x1ed [None; None; None; None; None;
                             fault "in use"; fault "access denied"] in
  let '(res, w', evs) := fromStream (bytes_NewBuffer new_image) w in
  (In (EvOpenFile demo_new 0x1ed None) evs /\
   In (EvWrite demo_new (length new_image) None) evs /\
   In (EvRename demo_exe demo_old None) evs /\
   In (EvRename demo_new demo_exe None) evs) /\
  res = (None, None) /\
  w_fs w' !! demo_exe = Some (mkNode (Data new_image) 0x1ed 0) /\
  ~ (w_fs w' !! demo_old = None \/
     exists k, w_fs w' !! demo_old = Some k /\ hidden k = true).
Proof.
  vm_compute. split; [|split; [done|split; [done|]]].
  - repeat split; auto 10.
  - intros [H|(k & H & Hk)]; [discriminate|].
    injection H as <-. discriminate.
Qed.

(** C9, the claim as stated fails.  The original has the bits 0700; the
    staged file is created with 0755.  (The evacuation is made to fail so
    that both files are still there to be compared.) *)
Lemma staged_mode_differs_from_original :
  let w := demo_world 0x1c0 [None; None; None; fault "locked"] in
  let '(_, w', evs) := fromStream (bytes_NewBuffer new_image) w in
  n_mode <$> w_fs w !! demo_exe = Some 0x1c0 /\
  In (EvOpenFile demo_new 0x1ed None) evs /\
  n_mode <$> w_fs w' !! demo_new = Some 0x1ed /\
  n_mode <$> w_fs w' !! demo_exe = Some 0x1c0 /\
  n_mode <$> w_fs w' !! demo_new <> n_mode <$> w_fs w' !! demo_exe.
Proof. vm_compute. repeat split; auto. discriminate. Qed.

(** C4. A session that has not resolved a manifest yet, and whose current
    version is the one the server advertises, calls [UpdateForce]: no
    manifest is requested, [u.Info] stays empty, and the artifact is
    requested for the empty version, which the server does not have, so
    nothing is installed.  [UpdateForce] as specified resolves the manifest,
    fetches the artifact of 1.2.0 and swaps it in. *)
Theorem UpdateForce_skips_the_manifest :
  let u := demo_updater "1.2.0" "" in
  let w := demo_world 0x1ed [] in
  let bad := "bad http status from "
               +:+ "http://updates.example/myapp//linux-amd64.zst"
               +:+ ": 404 Not Found" in
  UpdateForce (RT := demo_rt) u w
    = ((Some (errorString bad), u), w,
       [EvEvalSymlinks demo_exe;
        EvOpen demo_exe None;
        EvFetch "http://updates.example/myapp//linux-amd64.zst";
        EvLog ("update: fetching full binary(fetchFullBin), " +:+ bad)]) /\
  (let '(res, u', w', evs) := UpdateForce_as_specified (RT := demo_rt) u w in
   res = None /\ Version (Info u') = "1.2.0" /\
   List.filter is_network evs
     = [EvFetch "http://updates.example/myapp/linux-amd64.json";
        EvFetch "http://updates.example/myapp/1.2.0/linux-amd64.zst"] /\
   w_fs w' !! demo_exe = Some (mkNode (Data new_image) 0x1ed 0)) /\
  UpdateForce (RT := demo_rt) u w
    <> UpdateForce_as_specified (RT := demo_rt) u w.
Proof. vm_compute. by repeat split. Qed.

(** C5. The executable is reported at [/usr/bin/myapp], a symbolic link to
    [/opt/app/myapp].  [Update] resolves the link and opens the target, but
    the transaction stages, evacuates and promotes beside the link: the link
    is replaced by the new file and the real executable keeps its bytes. *)
Theorem transaction_at_unresolved_path :
  let '(res, _, w', evs) :=
    Update (RT := demo_rt) (demo_updater "1.1.0" "") link_world in
  res = None /\
  evs = [EvEvalSymlinks link_exe;
         EvFetch "http://updates.example/myapp/linux-amd64.json";
         EvOpen demo_exe None;
         EvFetch "http://updates.example/myapp/1.2.0/linux-amd64.zst";
         EvOpenFile ["usr"; "bin"; ".myapp.new"] 0x1ed None;
         EvWrite ["usr"; "bin"; ".myapp.new"] 2 None;
         EvRemove ["usr"; "bin"; ".myapp.old"]
                  (no_backup ["usr"; "bin"; ".myapp.old"]);
         EvRename link_exe ["usr"; "bin"; ".myapp.old"] None;
         EvRename ["usr"; "bin"; ".myapp.new"] link_exe None;
         EvRemove ["usr"; "bin"; ".myapp.old"] None;
         EvOnSuccessfulUpdate] /\
  w_fs link_world !! link_exe = Some (mkNode (LinkTo demo_exe) 0x1ff 0) /\
  w_fs w' !! link_exe = Some (mkNode (Data new_image) 0x1ed 0) /\
  w_fs w' !! demo_exe = Some (mkNode (Data old_image) 0x1ed 0).
Proof. vm_compute. by repeat split. Qed.

(** C6. With the current version ["dev"], [Update] still requests the
    manifest and, the manifest version being another string, downloads and
    installs the artifact. *)
Theorem Update_runs_on_dev :
  let u := demo_updater "dev" "" in
  WantUpdate u = false /\
  let '(res, _, w', evs) := Update (RT := demo_rt) u (demo_world 0x1ed []) in
  res = None /\
  List.filter is_network evs
    = [EvFetch "http://updates.example/myapp/linux-amd64.json";
       EvFetch "http://updates.example/myapp/1.2.0/linux-amd64.zst"] /\
  w_fs w' !! demo_exe = Some (mkNode (Data new_image) 0x1ed 0).
Proof. vm_compute. by repeat split. Qed.

(** ** The theorems at work on the scenarios *)

Lemma promote_failure_errors_witness :
  exists msg,
    double_fault_run.1.1.1 = Some (errorString msg) /\
    contains (strconv_Quote (Runtime := demo_rt) "promote") msg /\
    contains (strconv_Quote (Runtime := demo_rt) "recover") msg.
Proof.
  refine (proj2 (promote_failure_errors (RT := demo_rt)
                   (demo_updater "1.1.0" "") double_fault_world demo_exe
                   double_fault_run.1.1.1 double_fault_run.1.1.2
                   double_fault_run.1.2 double_fault_run.2
                   (errorString "promote") _ _ _)
                (errorString "recover") _).
  - reflexivity.
  - left. vm_compute. reflexivity.
  - vm_compute. auto 20.
  - vm_compute. auto 20.
Defined.

Lemma successful_swap_witness :
  busy_run.1.1 = (None, None) /\
  (exists n, w_fs busy_run.1.2 !! demo_exe = Some n /\
             n_content n = Data new_image) /\
  w_fs busy_run.1.2 !! newPath_of demo_exe = None /\
  exists orig pre rerr tail,
    w_fs busy_world !! demo_exe = Some orig /\
    busy_run.2 = pre ++ [EvRename (newPath_of demo_exe) demo_exe None;
                         EvRemove (oldPath_of demo_exe) rerr] ++ tail /\
    match rerr with
    | None => tail = [] /\ w_fs busy_run.1.2 !! oldPath_of demo_exe = None
    | Some _ =>
        (tail = [EvHide (oldPath_of demo_exe) None] /\
         w_fs busy_run.1.2 !! oldPath_of demo_exe
         = Some (mkNode (n_content orig) (n_mode orig) FILE_ATTRIBUTE_HIDDEN))
        \/ (exists he,
              (tail = [EvHide (oldPath_of demo_exe) (Some he)]
               \/ (tail = [] /\
                   syscall_UTF16PtrFromString (oldPath_of demo_exe)
                   = Err he)) /\
              w_fs busy_run.1.2 !! oldPath_of demo_exe = Some orig)
    end.
Proof.
  apply (successful_swap new_image busy_world demo_exe).
  - reflexivity.
  - intros n Hn. vm_compute in Hn. discriminate.
  - vm_compute. reflexivity.
  - vm_compute. auto 20.
  - vm_compute. auto 20.
  - vm_compute. auto 20.
  - vm_compute. auto 20.
Defined.

Lemma UpdateAvailable_exact_match_witness :
  exists v,
    UpdateAvailable (RT := demo_rt) (demo_updater "1.1.0" "")
                    (demo_world 0x1ed [])
      = ((v, None, set_Info (demo_updater "1.1.0" "") (mkInfo "1.2.0")),
         demo_world 0x1ed [],
         [EvOpen demo_exe None]
           ++ [EvFetch (manifest_url (RT := demo_rt)
                          (demo_updater "1.1.0" ""))]) /\
    (Version (mkInfo "1.2.0") = CurrentVersion (demo_updater "1.1.0" "")
     -> v = "") /\
    (Version (mkInfo "1.2.0") <> CurrentVersion (demo_updater "1.1.0" "")
     -> v = Version (mkInfo "1.2.0")).
Proof.
  apply (UpdateAvailable_exact_match (RT := demo_rt)
           (demo_updater "1.1.0" "") (demo_world 0x1ed []) demo_exe demo_exe
           (demo_world 0x1ed []) [EvOpen demo_exe None] demo_manifest
           (mkInfo "1.2.0")).
  - reflexivity.
  - vm_compute. reflexivity.
  - vm_compute. reflexivity.
  - vm_compute. reflexivity.
Defined.

Lemma Update_up_to_date_witness :
  exists evs,
    Update (RT := demo_rt) (demo_updater "1.2.0" "") (demo_world 0x1ed [])
      = ((None, set_Info (demo_updater "1.2.0" "") (mkInfo "1.2.0")),
         demo_world 0x1ed [], evs) /\
    evs = [EvEvalSymlinks demo_exe;
           EvFetch (manifest_url (RT := demo_rt) (demo_updater "1.2.0" ""))] /\
    forallb quiet evs = true /\
    List.filter is_network evs
      = [EvFetch (manifest_url (RT := demo_rt) (demo_updater "1.2.0" ""))].
Proof.
  apply (Update_up_to_date (RT := demo_rt) (demo_updater "1.2.0" "")
           (demo_world 0x1ed []) demo_exe demo_manifest (mkInfo "1.2.0")).
  - reflexivity.
  - vm_compute. reflexivity.
  - vm_compute. reflexivity.
  - reflexivity.
Defined.

Lemma staged_file_mode_witness :
  n_mode <$> w_fs (demo_world 0x1c0 []) !! demo_exe = Some 0x1c0 /\
  In (EvOpenFile (newPath_of demo_exe) perm_0755 None) private_run.2 /\
  exists nd,
    n_mode nd = Z.ldiff perm_0755 (w_umask (demo_world 0x1c0 [])) /\
    ((In (EvRename (newPath_of demo_exe) demo_exe None) private_run.2 /\
      w_fs private_run.1.2 !! demo_exe = Some nd) \/
     (~ In (EvRename (newPath_of demo_exe) demo_exe None) private_run.2 /\
      w_fs private_run.1.2 !! newPath_of demo_exe = Some nd)).
Proof.
  split; [reflexivity|].
  refine (proj2 (proj2 (proj2 (proj2
            (staged_file_mode new_image (demo_world 0x1c0 []) demo_exe
               private_run.1.1 private_run.1.2 private_run.2 _ _))))
            (newPath_of demo_exe)
            (os_OpenFile (newPath_of demo_exe) perm_0755
               (demo_world 0x1c0 [])).1.2
            [EvOpenFile (newPath_of demo_exe) perm_0755 None] _ _).
  - reflexivity.
  - vm_compute. reflexivity.
  - vm_compute. reflexivity.
  - vm_compute. reflexivity.
Defined.

Lemma UpdateAvailable_read_only_witness :
  let u := demo_updater "1.1.0" "" in
  let lost := errorString "readlink /proc/self/exe: permission denied" in
  let denied := errorString "permission denied" in
  let run := UpdateAvailable (RT := demo_rt) u (demo_world 0x1ed []) in
  UpdateAvailable (RT := demo_rt) u lost_world
    = (("", Some lost, u), lost_world, []) /\
  (UpdateAvailable (RT := demo_rt) u unreadable_world
     = (("", Some denied, u), demo_world 0x1ed [],
        [EvOpen demo_exe (Some denied)]) /\
   List.filter is_network [EvOpen demo_exe (Some denied)] = []) /\
  (w_fs run.1.2 = w_fs (demo_world 0x1ed []) /\ forallb quiet run.2 = true).
Proof.
  intros u lost denied run. split; [|split].
  - apply (proj1 (UpdateAvailable_read_only (RT := demo_rt) u lost_world)).
    reflexivity.
  - apply (proj1 (proj2 (UpdateAvailable_read_only (RT := demo_rt) u
                           unreadable_world)) demo_exe).
    + reflexivity.
    + vm_compute. reflexivity.
  - apply (proj2 (proj2 (UpdateAvailable_read_only (RT := demo_rt) u
                           (demo_world 0x1ed [])))
             run.1.1.1.1 run.1.1.1.2 run.1.1.2).
    vm_compute. reflexivity.
Defined.
